(** * Simon: the Sequence type and the game loop of src/simon/main.go

    Shallow embedding of the game logic of [main.go]:
    - [Sequence] with its methods [Len], [Reset], [Next], [HasNext];
    - the body of [loop]: the FrameEvent and key.Event handlers, the
      bodies of the callbacks handed to [time.AfterFunc], and the start of
      the loop.

    Go [int] values are modelled as [Z]; the only arithmetic on them
    ([lindex++] below [len(list)], [Len()-1], [e.Name[0] - '1']) stays far
    from the 64-bit bounds, so no wrap-around occurs.  A Go runtime panic
    (index out of range, [rand.Intn] with a non-positive bound) is [None].
    Drawing, audio and window layout are not modelled. *)

From Stdlib Require Import ZArith List String Ascii Bool Lia.
Import ListNotations.
Open Scope Z_scope.

(** A small option monad for the code paths that can panic. *)
Definition obind {A B : Type} (m : option A) (k : A -> option B) : option B :=
  match m with Some a => k a | None => None end.
Notation "x <- m ;; k" := (obind m (fun x => k))
  (at level 61, m at next level, right associativity).

(** ** Sequence (main.go, lines 71-101) *)

(** [type Sequence struct { list []int; lindex int; maxval int }]; the
    field [list] is named [lst] here, [list] being the Rocq list type. *)
Record Sequence := mkSequence {
  lst : list Z;
  lindex : Z;
  maxval : Z
}.

(** [func (s *Sequence) Len() int { return len(s.list) }] *)
Definition Len (s : Sequence) : Z := Z.of_nat (List.length (lst s)).

(** [rand.Intn(n)] of math/rand: it panics when [n <= 0]; otherwise it
    returns one value of [[0, n)], all of them equally likely.  The
    possible results are listed by [Intn_outcomes], one entry each. *)
Definition Intn_panics (n : Z) : bool := n <=? 0.

Definition Intn_outcomes (n : Z) : list Z :=
  map Z.of_nat (List.seq 0 (Z.to_nat n)).

(** [func (s *Sequence) Reset(add bool)]; [r] is the value returned by the
    call [rand.Intn(s.maxval)] (only made when [add] is true). *)
Definition Reset (add : bool) (r : Z) (s : Sequence) : option Sequence :=
  let s := mkSequence (lst s) 0 (maxval s) in
  if add then
    if Intn_panics (maxval s) then None
    else Some (mkSequence (lst s ++ [r]) (lindex s) (maxval s))
  else Some s.

(** [func (s *Sequence) Next() int]: the [-1] sentinel at the end; the
    indexing [s.list[s.lindex]] panics outside [[0, len(s.list))]. *)
Definition Next (s : Sequence) : option (Z * Sequence) :=
  if lindex s =? Len s then Some (-1, s)
  else if (0 <=? lindex s) && (lindex s <? Len s) then
    match nth_error (lst s) (Z.to_nat (lindex s)) with
    | Some curr => Some (curr, mkSequence (lst s) (lindex s + 1) (maxval s))
    | None => None
    end
  else None.

(** [func (s *Sequence) HasNext() bool] *)
Definition HasNext (s : Sequence) : bool := lindex s <? Len s.

(** The package-level variable [sequence = Sequence{maxval: 4}]. *)
Definition sequence0 : Sequence := mkSequence [] 0 4.

(** The Sequence states the program can reach: the initial value, then any
    [Reset] (with a possible result of [rand.Intn]) or [Next].  [Len] and
    [HasNext] do not write to the sequence. *)
Inductive reachable : Sequence -> Prop :=
| reach_init : reachable sequence0
| reach_reset : forall s add r s',
    reachable s -> In r (Intn_outcomes (maxval s)) ->
    Reset add r s = Some s' -> reachable s'
| reach_next : forall s v s',
    reachable s -> Next s = Some (v, s') -> reachable s'.

(** The cursor invariant [cursor ∈ [0, length]]. *)
Definition wf (s : Sequence) : Prop := 0 <= lindex s <= Len s.

(** [n] successive calls of [Next], collecting the returned values. *)
Fixpoint next_n (n : nat) (s : Sequence) : option (list Z * Sequence) :=
  match n with
  | O => Some ([], s)
  | S n' =>
      p <- Next s ;;
      let '(v, s1) := p in
      q <- next_n n' s1 ;;
      let '(vs, s2) := q in
      Some (v :: vs, s2)
  end.

(** ** The game loop (main.go, lines 140-288) *)

(** The callbacks handed to [time.AfterFunc] by [loop]:
    - [CbInvalidate]: [time.AfterFunc(playInterval, w.Invalidate)] (line 169);
    - [CbFail]: the [playInterval] callback after a mismatch (lines 227-234);
    - [CbClose]: the nested [resetTime] callback calling [w.Close()] (231-233);
    - [CbReset]: the [resetTime] callback that starts a new round (238-243). *)
Inductive Callback := CbInvalidate | CbFail | CbClose | CbReset.

(** The state shared by [loop] and its callbacks: the global [sequence],
    the locals [simonPlay], [terminating], [selected] captured by the
    closures, the pending timers, the values logged as
    "Longest correct sequence" and whether [w.Close()] was called. *)
Record State := mkState {
  seq : Sequence;
  simonPlay : bool;
  terminating : bool;
  selected : Z;
  timers : list Callback;
  reported : list Z;
  closed : bool
}.

Definition set_seq (q : Sequence) (st : State) : State :=
  mkState q (simonPlay st) (terminating st) (selected st) (timers st)
    (reported st) (closed st).
Definition set_simonPlay (b : bool) (st : State) : State :=
  mkState (seq st) b (terminating st) (selected st) (timers st)
    (reported st) (closed st).
Definition set_terminating (b : bool) (st : State) : State :=
  mkState (seq st) (simonPlay st) b (selected st) (timers st)
    (reported st) (closed st).
Definition set_selected (z : Z) (st : State) : State :=
  mkState (seq st) (simonPlay st) (terminating st) z (timers st)
    (reported st) (closed st).
Definition set_timers (ts : list Callback) (st : State) : State :=
  mkState (seq st) (simonPlay st) (terminating st) (selected st) ts
    (reported st) (closed st).
Definition set_reported (rs : list Z) (st : State) : State :=
  mkState (seq st) (simonPlay st) (terminating st) (selected st) (timers st)
    rs (closed st).
Definition set_closed (b : bool) (st : State) : State :=
  mkState (seq st) (simonPlay st) (terminating st) (selected st) (timers st)
    (reported st) b.

(** [time.AfterFunc(d, f)]: [f] becomes a pending timer. *)
Definition AfterFunc (cb : Callback) (st : State) : State :=
  set_timers (timers st ++ [cb]) st.

(** Start of [loop] (lines 146-151): [simonPlay := true],
    [terminating := false], [selected := -1], [sequence.Reset(true)]. *)
Definition loop_start (r : Z) : option State :=
  q <- Reset true r sequence0 ;;
  Some (mkState q true false (-1) [] [] false).

(** Pointer event types seen by [gtx.Events(pad.label)]; [PtOther] is any
    other type (the loop only tests for [pointer.Press] and
    [pointer.Release]). *)
Inductive PType := PtPress | PtRelease | PtOther.

(** The inner loop over [gtx.Events(pad.label)] (lines 189-197). *)
Definition scan_events (i : Z) (evs : list PType) (user : Z) : Z :=
  fold_left (fun u ev =>
    match ev with PtPress => i | PtRelease => -1 | PtOther => u end)
    evs user.

(** The input part of the [grid.Layout] closure for pad [i] (lines
    185-201), on the pair [(user, selected)]. *)
Definition pad_input (simon : bool) (evs : list PType) (i : Z)
    (us : Z * Z) : Z * Z :=
  let '(user, sel) := us in
  if negb simon then
    if sel >=? 0 then (sel, sel)        (* from keyboard *)
    else let user' := scan_events i evs user in (user', user')
  else (user, sel).

(** [grid.Layout(gtx, len(pads), ...)] calls the closure for the pads
    0, 1, 2, 3 in order, starting from [user := -1] (line 177). *)
Definition grid (simon : bool) (events : nat -> list PType) (sel : Z)
    : Z * Z :=
  fold_left (fun us i => pad_input simon (events i) (Z.of_nat i) us)
    (List.seq 0 4) (-1, sel).

(** The pointer events the frame sees: [gtx.Disabled()] (lines 161-163)
    clears the event queue, so [gtx.Events] returns none. *)
Definition visible (ev : nat -> list PType) (st : State) : nat -> list PType :=
  fun i => if simonPlay st || terminating st then [] else ev i.

(** The machine's playback step (lines 165-175). *)
Definition simon_step (st : State) : option State :=
  if simonPlay st then
    p <- Next (seq st) ;;
    let '(simon, q) := p in
    if simon >=? 0 then
      Some (AfterFunc CbInvalidate (set_selected simon (set_seq q st)))
    else
      q' <- Reset false 0 q ;;
      Some (set_seq q' (set_simonPlay false st))
  else Some st.

(** Judging a player selection (lines 218-245), for [user >= 0]. *)
Definition judge (user : Z) (st : State) : option State :=
  p <- Next (seq st) ;;
  let '(simon, q) := p in
  let st1 := set_seq q st in
  let st2 := if (simon >=? 0) && negb (simon =? user)
             then AfterFunc CbFail (set_terminating true st1) else st1 in
  if negb (terminating st2) && negb (HasNext (seq st2))
  then Some (AfterFunc CbReset st2) else Some st2.

(** The [system.FrameEvent] case (lines 159-268); [ev i] are the pending
    pointer events of pad [i]. *)
Definition frame (ev : nat -> list PType) (st : State) : option State :=
  let events := visible ev st in
  st1 <- simon_step st ;;
  let '(user, sel) := grid (simonPlay st1) events (selected st1) in
  let st2 := set_selected sel st1 in
  st3 <- (if negb (simonPlay st2) && (user >=? 0) then judge user st2
          else Some st2) ;;
  Some (set_selected (-1) st3).

(** [key.Event] states. *)
Inductive KeyState := KPress | KRelease.

(** [int(e.Name[0] - '1')] for the names "1".."4". *)
Definition digit (name : string) : Z :=
  match name with
  | String c _ => Z.of_nat (nat_of_ascii c) - Z.of_nat (nat_of_ascii "1"%char)
  | EmptyString => -1
  end.

(** The [key.Event] case (lines 270-285); [w.Invalidate()] only requests a
    new FrameEvent. *)
Definition key_event (name : string) (ks : KeyState) (st : State) : State :=
  match ks with
  | KPress =>
      if existsb (String.eqb name) ["1"; "2"; "3"; "4"]%string then
        if negb (simonPlay st) then set_selected (digit name) st else st
      else if existsb (String.eqb name) ["X"; "Q"]%string then
        set_closed true st
      else st
  | KRelease => set_selected (-1) st
  end.

(** The body of a callback, as it runs in the timer's goroutine; [r] is the
    result of [rand.Intn] when the body calls [sequence.Reset(true)].
    [audioPlay(audioBuzz)] is not modelled. *)
Definition run_callback (cb : Callback) (r : Z) (st : State) : option State :=
  match cb with
  | CbInvalidate => Some st
  | CbFail =>
      Some (AfterFunc CbClose
              (set_reported (reported st ++ [Len (seq st) - 1]) st))
  | CbClose => Some (set_closed true st)
  | CbReset =>
      q <- Reset true r (seq st) ;;
      Some (set_seq q (set_simonPlay true st))
  end.

(** Removing the [n]-th pending timer. *)
Fixpoint remove_nth {A : Type} (n : nat) (l : list A) : list A :=
  match n, l with
  | _, [] => []
  | O, _ :: t => t
  | S n', h :: t => h :: remove_nth n' t
  end.

(** The [n]-th pending timer fires. *)
Definition fire (n : nat) (r : Z) (st : State) : option State :=
  cb <- nth_error (timers st) n ;;
  run_callback cb r (set_timers (remove_nth n (timers st)) st).

(** What can happen next: an event read by [loop] ([<-w.Events()]), or a
    pending timer firing in its own goroutine. *)
Inductive Action :=
| AFrame (ev : nat -> list PType)
| AKey (name : string) (ks : KeyState)
| AFire (n : nat) (r : Z).

Definition step (st : State) (a : Action) : option State :=
  match a with
  | AFrame ev => frame ev st
  | AKey name ks => Some (key_event name ks st)
  | AFire n r => fire n r st
  end.

Fixpoint run (st : State) (acts : list Action) : option State :=
  match acts with
  | [] => Some st
  | a :: rest => st' <- step st a ;; run st' rest
  end.

(** No pointer events pending. *)
Definition no_ev : nat -> list PType := fun _ => [].

(** The part of [State] the game logic owns: the sequence, the phase flags
    and the active symbol. *)
Definition game_state (st : State) : Sequence * bool * bool * Z :=
  (seq st, simonPlay st, terminating st, selected st).

(** ** Colours (main.go, lines 33-69) *)

(** [color.NRGBA]: four [uint8] channels, as [Z] values of [[0, 256)]. *)
Record NRGBA := mkNRGBA { R : Z; G : Z; B : Z; A : Z }.

Definition byte_ok (x : Z) : Prop := 0 <= x < 256.

Definition color_ok (c : NRGBA) : Prop :=
  byte_ok (R c) /\ byte_ok (G c) /\ byte_ok (B c) /\ byte_ok (A c).

(** [func Darker(c color.NRGBA)]: [uint8] division by the constant
    [r = 2] (truncating, which is [Z.div] on non-negative values). *)
Definition Darker (c : NRGBA) : NRGBA :=
  let r := 2 in
  mkNRGBA (R c / r) (G c / r) (B c / r) (A c).

(** The colour [Pad.Layout] fills the pad with (lines 42-45). *)
Definition pad_color (active : bool) (c : NRGBA) : NRGBA :=
  if active then c else Darker c.

(** ** Observations on the loop model *)

(** The name of the digit key for symbol [k]: ["1"] for 0, ..., ["4"]
    for 3 (the inverse of [digit] on those names). *)
Definition key_name (k : Z) : string :=
  String (ascii_of_nat (Z.to_nat k + 49)) EmptyString.

(** The player enters symbol [k] by pressing and releasing its key; each
    key event is followed by the FrameEvent that its [w.Invalidate()]
    requests. *)
Definition press_key (k : Z) : list Action :=
  [AKey (key_name k) KPress; AFrame no_ev; AKey (key_name k) KRelease; AFrame no_ev].

(** The machine's playback of [n] symbols: a frame per symbol, each
    followed by its [playInterval] timer (the only pending one), then the
    frame that finds the sequence exhausted. *)
Definition playback_acts (n : nat) : list Action :=
  List.concat (repeat [AFrame no_ev; AFire 0 0] n) ++ [AFrame no_ev].

(** A pad's pointer events end in a press: the last press or release
    among them is a press. *)
Definition pressed (evs : list PType) : bool :=
  match find (fun e => match e with PtOther => false | _ => true end) (rev evs) with
  | Some PtPress => true
  | _ => false
  end.

(** The lowest-numbered pad whose pointer events end in a press, or -1. *)
Definition first_pressed (events : nat -> list PType) : Z :=
  match find (fun i => pressed (events i)) (List.seq 0 4) with
  | Some i => Z.of_nat i
  | None => -1
  end.

(** Pending [resetTime] callbacks (each starts a new round). *)
Definition count_reset (ts : list Callback) : nat :=
  List.length (filter (fun cb => match cb with CbReset => true | _ => false end) ts).

(** The state invariant of the loop: the program's sequence ([maxval = 4],
    cursor within bounds, symbols in [[0, 4)]) and [selected] either -1
    or a symbol. *)
Definition seq_ok (q : Sequence) : Prop :=
  maxval q = 4 /\ wf q /\ Forall (fun x => 0 <= x < 4) (lst q).

Definition inv (st : State) : Prop :=
  seq_ok (seq st) /\ -1 <= selected st < 4.

(** Actions that can happen: a timer that is pending, whose [rand.Intn(4)]
    draw is a possible result. *)
Definition valid_action (st : State) (a : Action) : Prop :=
  match a with
  | AFire n r => (n < List.length (timers st))%nat /\ 0 <= r < 4
  | _ => True
  end.

(** The event trace of a game with one round: the machine plays its
    symbol, the player presses the matching key ("3", symbol 2), releases
    it, and presses a key again within [resetTime]; the two pending
    [resetTime] timers then fire. *)
Definition one_round_extra_press : list Action :=
  [AFrame no_ev; AFire 0 0; AFrame no_ev;
   AKey "3" KPress; AFrame no_ev; AKey "3" KRelease; AFrame no_ev;
   AKey "1" KPress; AFrame no_ev;
   AFire 0 0; AFire 0 1].

(** * Properties *)

Example Next_example :
  Next (mkSequence [2; 0] 1 4) = Some (0, mkSequence [2; 0] 2 4).
Proof. reflexivity. Qed.

Example Next_end_example :
  Next (mkSequence [2; 0] 2 4) = Some (-1, mkSequence [2; 0] 2 4).
Proof. reflexivity. Qed.

(** ** Sequence lemmas *)

Lemma Next_cases (s : Sequence) :
  wf s ->
  (lindex s = Len s /\ Next s = Some (-1, s)) \/
  (lindex s < Len s /\ exists v,
     nth_error (lst s) (Z.to_nat (lindex s)) = Some v /\
     Next s = Some (v, mkSequence (lst s) (lindex s + 1) (maxval s))).
Proof.
  unfold wf, Next. intros Hwf.
  destruct (Z.eqb_spec (lindex s) (Len s)) as [E|E]; [left; auto|right].
  assert (Hlt : lindex s < Len s) by lia. split; [exact Hlt|].
  replace ((0 <=? lindex s) && (lindex s <? Len s)) with true
    by (symmetry; apply andb_true_intro; split; apply Z.leb_le || apply Z.ltb_lt; lia).
  destruct (nth_error (lst s) (Z.to_nat (lindex s))) as [v|] eqn:Hn.
  - exists v. auto.
  - apply nth_error_None in Hn. unfold Len in Hlt. lia.
Qed.

Lemma Intn_outcomes_4 : Intn_outcomes 4 = [0; 1; 2; 3].
Proof. reflexivity. Qed.

(** Every reachable Sequence keeps [maxval = 4], the cursor invariant and
    symbols in [[0, 4)]. *)
Lemma reachable_inv (s : Sequence) :
  reachable s ->
  maxval s = 4 /\ wf s /\ Forall (fun x => 0 <= x < 4) (lst s).
Proof.
  induction 1 as [|s add r s' Hr IH Hin HR|s v s' Hr IH HN].
  - cbn. unfold wf, Len. cbn. repeat split; auto; lia.
  - destruct IH as (Hm & Hwf & Hall).
    rewrite Hm, Intn_outcomes_4 in Hin.
    unfold Reset in HR. cbn in HR. rewrite Hm in HR.
    destruct add; cbn in HR; inversion HR; subst; clear HR.
    + unfold wf, Len; cbn. rewrite length_app. repeat split; try lia.
      apply Forall_app. split; [exact Hall|].
      constructor; [|constructor].
      cbn in Hin. lia.
    + unfold wf, Len; cbn. repeat split; auto; lia.
  - destruct IH as (Hm & Hwf & Hall).
    destruct (Next_cases s Hwf) as [(_ & HN')|(Hlt & v' & _ & HN')];
      rewrite HN' in HN; inversion HN; subst; clear HN.
    + auto.
    + unfold wf, Len in *; cbn. repeat split; auto; lia.
Qed.

Lemma reachable_wf (s : Sequence) : reachable s -> wf s.
Proof. intros H. apply reachable_inv in H. tauto. Qed.

(** Replaying a suffix from the cursor. *)
Lemma next_n_replay (suf pre : list Z) (m : Z) :
  next_n (List.length suf) (mkSequence (pre ++ suf) (Z.of_nat (List.length pre)) m)
  = Some (suf, mkSequence (pre ++ suf) (Z.of_nat (List.length (pre ++ suf))) m).
Proof.
  revert pre. induction suf as [|a suf IH]; intros pre.
  - rewrite app_nil_r. reflexivity.
  - assert (HN : Next (mkSequence (pre ++ a :: suf) (Z.of_nat (List.length pre)) m)
                 = Some (a, mkSequence ((pre ++ [a]) ++ suf)
                                       (Z.of_nat (List.length (pre ++ [a]))) m)).
    { assert (Hwf : wf (mkSequence (pre ++ a :: suf) (Z.of_nat (List.length pre)) m)).
      { unfold wf, Len; cbn. rewrite length_app; cbn. lia. }
      destruct (Next_cases _ Hwf) as [(E & _)|(_ & v & Hv & HN)].
      - unfold Len in E; cbn in E. rewrite length_app in E; cbn in E. lia.
      - rewrite HN. cbn in Hv. rewrite Nat2Z.id in Hv.
        rewrite nth_error_app2, Nat.sub_diag in Hv by lia. cbn in Hv.
        inversion Hv; subst v.
        rewrite <- app_assoc, length_app. cbn. f_equal. f_equal. f_equal. lia. }
    cbn [List.length next_n]. rewrite HN. cbn [obind].
    rewrite IH. cbn [obind].
    rewrite <- !app_assoc. reflexivity.
Qed.

(** ** Claims on Sequence *)

(** C2: for every Sequence, [Reset(false)] followed by [Len()] calls of
    [Next()] returns exactly the stored symbols, in insertion order (and
    leaves the cursor at the end). *)
Theorem Reset_false_replays (s : Sequence) (r : Z) :
  exists q, Reset false r s = Some q /\
    next_n (Z.to_nat (Len s)) q
    = Some (lst s, mkSequence (lst s) (Len s) (maxval s)).
Proof.
  exists (mkSequence (lst s) 0 (maxval s)). split; [reflexivity|].
  unfold Len. rewrite Nat2Z.id.
  exact (next_n_replay (lst s) [] (maxval s)).
Qed.

(** C3: on every Sequence the program reaches, [Next()] returns the [-1]
    sentinel exactly when the cursor equals the length, exactly when
    [HasNext()] is false (and then changes nothing); otherwise it returns
    the symbol at the cursor, a value of [[0, 4)], and advances the cursor
    by one. *)
Theorem Next_sentinel_iff (s : Sequence) (Hs : reachable s) :
  exists v s', Next s = Some (v, s') /\
    (v = -1 <-> lindex s = Len s) /\
    (v = -1 <-> HasNext s = false) /\
    (v = -1 -> s' = s) /\
    (HasNext s = true ->
       nth_error (lst s) (Z.to_nat (lindex s)) = Some v /\ 0 <= v < 4 /\
       s' = mkSequence (lst s) (lindex s + 1) (maxval s)).
Proof.
  destruct (reachable_inv s Hs) as (_ & Hwf & Hall).
  unfold HasNext.
  destruct (Next_cases s Hwf) as [(E & HN)|(Hlt & v & Hv & HN)].
  - exists (-1), s. rewrite HN. rewrite E, Z.ltb_irrefl.
    repeat split; auto; discriminate.
  - assert (Hv4 : 0 <= v < 4).
    { rewrite Forall_forall in Hall. apply Hall. eapply nth_error_In; eauto. }
    exists v, (mkSequence (lst s) (lindex s + 1) (maxval s)).
    apply Z.ltb_lt in Hlt as Hltb. rewrite Hltb.
    repeat split; auto; intros; try lia; discriminate.
Qed.

(** C4: on the program's Sequence ([maxval = 4]), [Reset(growing)] never
    panics and sets the cursor to 0; with [growing = true] it appends
    exactly one symbol, the result of [rand.Intn(4)], whose outcomes are
    0, 1, 2, 3 once each (uniform over [[0, 4)]); with [growing = false]
    the list is unchanged. *)
Theorem Reset_spec (l : list Z) (i r : Z) :
  let s := mkSequence l i 4 in
  Intn_panics (maxval s) = false /\
  Intn_outcomes (maxval s) = [0; 1; 2; 3] /\
  map (fun x => Reset true x s) (Intn_outcomes (maxval s))
    = map (fun x => Some (mkSequence (l ++ [x]) 0 4)) [0; 1; 2; 3] /\
  Reset true r s = Some (mkSequence (l ++ [r]) 0 4) /\
  Reset false r s = Some (mkSequence l 0 4).
Proof. cbn. repeat split; reflexivity. Qed.

(** C7: every Sequence operation preserves [cursor ∈ [0, length]] and
    never shortens the list: [Reset] (when it does not panic) and [Next]
    (which never panics on such a state) keep the invariant, [Reset] keeps
    or grows the length and [Next] keeps it; [HasNext] and [Len] only
    read the state. *)
Theorem ops_preserve_wf (s : Sequence) (Hwf : wf s) :
  (forall add r q, Reset add r s = Some q -> wf q /\ Len s <= Len q) /\
  (exists v q, Next s = Some (v, q) /\ wf q /\ Len q = Len s).
Proof.
  split.
  - intros add r q HR. unfold Reset in HR.
    destruct add; cbn in HR.
    + destruct (Intn_panics (maxval s)); inversion HR; subst.
      unfold wf, Len; cbn. rewrite length_app. cbn. lia.
    + inversion HR; subst. unfold wf, Len in *; cbn. lia.
  - destruct (Next_cases s Hwf) as [(E & HN)|(Hlt & v & Hv & HN)].
    + exists (-1), s. auto.
    + exists v, (mkSequence (lst s) (lindex s + 1) (maxval s)).
      unfold wf, Len in *; cbn. repeat split; auto; lia.
Qed.

(** C10: on a reachable Sequence whose cursor equals its length, [Next()]
    returns [-1] and changes nothing, so any number of further calls are
    no-ops returning [-1]; and every stored symbol lies in [[0, 4)], so it
    is never [-1]. *)
Theorem Next_exhausted_noop (s : Sequence) (Hs : reachable s)
    (Hend : lindex s = Len s) :
  Next s = Some (-1, s) /\
  (forall n, next_n n s = Some (repeat (-1) n, s)) /\
  Forall (fun x => 0 <= x < 4 /\ x <> -1) (lst s).
Proof.
  destruct (reachable_inv s Hs) as (_ & _ & Hall).
  assert (HN : Next s = Some (-1, s)).
  { unfold Next. rewrite Hend, Z.eqb_refl. reflexivity. }
  split; [exact HN|split].
  - induction n as [|n IH]; [reflexivity|].
    cbn [next_n]. rewrite HN. cbn [obind]. rewrite IH. reflexivity.
  - eapply Forall_impl; [|exact Hall]. cbn. intros x Hx. lia.
Qed.

(** ** Loop lemmas *)

Definition no_press (ev : nat -> list PType) : Prop :=
  forall i, ~ In PtPress (ev i).

Lemma scan_no_press (i : Z) (evs : list PType) :
  ~ In PtPress evs -> scan_events i evs (-1) = -1.
Proof.
  unfold scan_events. induction evs as [|e evs IH]; intros Hn; [reflexivity|].
  cbn [fold_left]. destruct e.
  - exfalso. apply Hn. left. reflexivity.
  - apply IH. intros H. apply Hn. right. exact H.
  - apply IH. intros H. apply Hn. right. exact H.
Qed.

Lemma grid_fold_no_press (events : nat -> list PType) (idx : list nat) :
  no_press events ->
  fold_left (fun us i => pad_input false (events i) (Z.of_nat i) us) idx (-1, -1)
  = (-1, -1).
Proof.
  intros Hn. induction idx as [|i idx IH]; [reflexivity|].
  cbn [fold_left]. unfold pad_input at 2. cbn [negb Z.geb Z.compare].
  rewrite scan_no_press by apply Hn. exact IH.
Qed.

Lemma grid_no_press (events : nat -> list PType) :
  no_press events -> grid false events (-1) = (-1, -1).
Proof. intros Hn. unfold grid. apply grid_fold_no_press. exact Hn. Qed.

Lemma grid_fold_keyboard (events : nat -> list PType) (sel : Z) (idx : list nat) :
  0 <= sel ->
  fold_left (fun us i => pad_input false (events i) (Z.of_nat i) us) idx (sel, sel)
  = (sel, sel).
Proof.
  intros Hs. induction idx as [|i idx IH]; [reflexivity|].
  cbn [fold_left]. unfold pad_input at 2. cbn [negb].
  replace (sel >=? 0) with true by (symmetry; apply Z.geb_le; lia).
  exact IH.
Qed.

Lemma pad_input_keyboard (evs : list PType) (i u sel : Z) :
  0 <= sel -> pad_input false evs i (u, sel) = (sel, sel).
Proof.
  intros Hs. unfold pad_input. cbn [negb].
  replace (sel >=? 0) with true by (symmetry; apply Z.geb_le; lia).
  reflexivity.
Qed.

Lemma grid_keyboard (events : nat -> list PType) (sel : Z) :
  0 <= sel -> grid false events sel = (sel, sel).
Proof.
  intros Hs. unfold grid.
  change (List.seq 0 4) with (0%nat :: List.seq 1 3). cbn [fold_left].
  rewrite pad_input_keyboard by exact Hs.
  apply grid_fold_keyboard. exact Hs.
Qed.

Lemma visible_no_press (ev : nat -> list PType) (st : State) :
  no_press ev -> no_press (visible ev st).
Proof.
  unfold no_press, visible. intros Hn i.
  destruct (simonPlay st || terminating st); [intros []|apply Hn].
Qed.

Lemma Next_lst (s q : Sequence) (v : Z) :
  Next s = Some (v, q) -> lst q = lst s /\ maxval q = maxval s.
Proof.
  unfold Next. intros H.
  destruct (lindex s =? Len s); [inversion H; auto|].
  destruct ((0 <=? lindex s) && (lindex s <? Len s)); [|discriminate].
  destruct (nth_error (lst s) (Z.to_nat (lindex s))); inversion H; auto.
Qed.

Lemma remove_nth_last {A : Type} (l : list A) (x : A) :
  remove_nth (List.length l) (l ++ [x]) = l.
Proof. induction l as [|a l IH]; cbn; [reflexivity|]. rewrite IH. reflexivity. Qed.

Lemma judge_simonPlay (u : Z) (st st' : State) :
  judge u st = Some st' -> simonPlay st' = simonPlay st.
Proof.
  unfold judge. destruct (Next (seq st)) as [[v q]|]; cbn; [|discriminate].
  destruct ((v >=? 0) && negb (v =? u));
    match goal with |- context [if ?b then _ else _] => destruct b end;
    intros H; inversion H; reflexivity.
Qed.

(** A frame never leaves a selection behind: [selected = -1] at its end
    (line 268). *)
Lemma frame_selected (ev : nat -> list PType) (st st' : State) :
  frame ev st = Some st' -> selected st' = -1.
Proof.
  unfold frame. destruct (simon_step st) as [st1|]; cbn [obind]; [|discriminate].
  destruct (grid (simonPlay st1) (visible ev st) (selected st1)) as [u sel].
  destruct (negb (simonPlay (set_selected sel st1)) && (u >=? 0));
    [destruct (judge u (set_selected sel st1))|]; cbn [obind];
    intros H; inversion H; reflexivity.
Qed.

(** A frame in [AwaitingPlayer] never goes back to [SimonPlaying]. *)
Lemma frame_keeps_awaiting (ev : nat -> list PType) (st st' : State) :
  simonPlay st = false -> frame ev st = Some st' -> simonPlay st' = false.
Proof.
  intros Hp. unfold frame, simon_step. rewrite Hp. cbn [obind]. rewrite Hp.
  destruct (grid false (visible ev st) (selected st)) as [u sel].
  destruct (negb (simonPlay (set_selected sel st)) && (u >=? 0)).
  - destruct (judge u (set_selected sel st)) as [st3|] eqn:J;
      cbn [obind]; [|discriminate].
    intros H; inversion H; subst. cbn.
    apply judge_simonPlay in J. rewrite J. exact Hp.
  - cbn [obind]. intros H; inversion H; subst. cbn. exact Hp.
Qed.

(** ** Claims on the game loop *)

(** C5: in [AwaitingPlayer] ([simonPlay] and [terminating] false), when
    the frame's player selection [u] differs from the symbol returned by
    [sequence.Next()], the frame moves to [Terminating] and schedules the
    failure callback; that callback reports [sequence.Len()-1], the length
    of the sequence before the failing round's symbol was appended. *)
Theorem mismatch_reports (ev : nat -> list PType) (st : State)
    (u simon r : Z) (q : Sequence)
    (Hplay : simonPlay st = false) (Hterm : terminating st = false)
    (Huser : fst (grid false (visible ev st) (selected st)) = u) (Hu : 0 <= u)
    (HN : Next (seq st) = Some (simon, q)) (Hs : 0 <= simon) (Hne : simon <> u) :
  exists st', frame ev st = Some st' /\
    terminating st' = true /\ seq st' = q /\
    timers st' = timers st ++ [CbFail] /\ Len q = Len (seq st) /\
    exists st'', fire (List.length (timers st)) r st' = Some st'' /\
      reported st'' = reported st ++ [Len (seq st) - 1].
Proof.
  assert (HL : Len q = Len (seq st)).
  { unfold Len. apply Next_lst in HN. destruct HN as [-> _]. reflexivity. }
  unfold frame, simon_step. rewrite Hplay. cbn [obind]. rewrite Hplay.
  destruct (grid false (visible ev st) (selected st)) as [user sel].
  cbn [fst] in Huser. subst user.
  replace (negb (simonPlay (set_selected sel st)) && (u >=? 0)) with true
    by (cbn; rewrite Hplay; symmetry; apply Z.geb_le; lia).
  unfold judge. cbn [seq set_selected]. rewrite HN. cbn [obind].
  replace ((simon >=? 0) && negb (simon =? u)) with true
    by (symmetry; apply andb_true_intro; split;
        [apply Z.geb_le; lia|apply negb_true_iff, Z.eqb_neq; exact Hne]).
  cbn [terminating AfterFunc set_terminating set_seq negb andb].
  eexists. split; [reflexivity|]. cbn.
  repeat split; auto.
  unfold fire. cbn [timers set_selected AfterFunc set_terminating set_seq set_timers].
  rewrite nth_error_app2, Nat.sub_diag by lia.
  cbn [nth_error obind]. rewrite remove_nth_last.
  eexists. split; [reflexivity|]. cbn. rewrite HL. reflexivity.
Qed.

(** C6: in [AwaitingPlayer], a frame with no live keyboard selection
    ([selected = -1]) and no pending pointer press changes nothing (no
    [sequence.Next()] call, no timer); every frame ends with
    [selected = -1], so after a judged frame the next frame without a new
    press is again a no-op. *)
Theorem no_selection_no_judge (st : State) (Hplay : simonPlay st = false) :
  (forall ev, selected st = -1 -> no_press ev -> frame ev st = Some st) /\
  (forall ev1 ev2 st1, frame ev1 st = Some st1 -> no_press ev2 ->
     selected st1 = -1 /\ simonPlay st1 = false /\ frame ev2 st1 = Some st1).
Proof.
  assert (Hidle : forall s ev, simonPlay s = false -> selected s = -1 ->
                  no_press ev -> frame ev s = Some s).
  { intros s ev Hp Hs Hn. unfold frame, simon_step. rewrite Hp. cbn [obind].
    rewrite Hp, Hs, grid_no_press by (apply visible_no_press; exact Hn).
    cbn. destruct s; cbn in *; subst; reflexivity. }
  split.
  - intros ev Hs Hn. apply Hidle; assumption.
  - intros ev1 ev2 st1 Hf Hn.
    pose proof (frame_selected _ _ _ Hf) as Hs1.
    pose proof (frame_keeps_awaiting _ _ _ Hplay Hf) as Hp1.
    repeat split; auto.
Qed.

(** C8: in [AwaitingPlayer], when a keyboard selection is pending
    ([selected >= 0]) the pad scan takes it for every pad without reading
    the pointer events, so the judged symbol is the keyboard one and the
    frame is the same as with no pointer event at all. *)
Theorem keyboard_precedence (ev : nat -> list PType) (st : State)
    (Hplay : simonPlay st = false) (Hsel : 0 <= selected st) :
  grid false (visible ev st) (selected st) = (selected st, selected st) /\
  frame ev st = frame no_ev st.
Proof.
  split; [apply grid_keyboard; exact Hsel|].
  unfold frame, simon_step. rewrite Hplay. cbn [obind]. rewrite Hplay.
  rewrite !grid_keyboard by exact Hsel. reflexivity.
Qed.

(** C1 (code bug): one successfully reproduced round followed by a second
    key press within [resetTime] schedules the [resetTime] callback twice,
    and both append a symbol: the machine restarts with three symbols
    after one round (the spec requires two). *)
Theorem extra_press_appends_twice :
  exists st0 st, loop_start 2 = Some st0 /\
    run st0 one_round_extra_press = Some st /\
    lst (seq st0) = [2] /\ lst (seq st) = [2; 0; 1] /\ simonPlay st = true.
Proof.
  exists (mkState (mkSequence [2] 0 4) true false (-1) [] [] false),
         (mkState (mkSequence [2; 0; 1] 0 4) true false (-1) [] [] false).
  refine (conj _ (conj _ (conj _ (conj _ _)))); vm_compute; reflexivity.
Qed.

(** C9 (code bug): not every timer callback leaves the game state to the
    loop: the [resetTime] callback (lines 238-243) sets [simonPlay] and
    calls [sequence.Reset(true)] in the timer's goroutine. *)
Theorem reset_callback_mutates :
  ~ (forall cb r st st', run_callback cb r st = Some st' ->
       game_state st' = game_state st).
Proof.
  intros H.
  assert (E : game_state (mkState (mkSequence [2; 0] 0 4) true false (-1) [] [] false)
             = game_state (mkState (mkSequence [2] 1 4) false false (-1) [] [] false)).
  { apply (H CbReset 0). vm_compute. reflexivity. }
  vm_compute in E. discriminate E.
Qed.

(** ** Scenarios of the spec, run on the model *)

(** Scenario 1: a fresh game draws [2]; the machine plays it, the player
    presses "3" (symbol 2): match, the sequence is exhausted and the
    [resetTime] callback for the next round is scheduled. *)
Example scenario_1 :
  (st0 <- loop_start 2 ;;
   run st0 [AFrame no_ev; AFire 0 0; AFrame no_ev; AKey "3" KPress; AFrame no_ev])
  = Some (mkState (mkSequence [2] 1 4) false false (-1) [CbReset] [] false).
Proof. vm_compute. reflexivity. Qed.

(** Scenario 2: with [[2; 0]] and the player past the first symbol, the
    player presses "2" (symbol 1): mismatch, [Terminating], and the
    failure callback reports [Len()-1 = 1]. *)
Example scenario_2 :
  run (mkState (mkSequence [2; 0] 1 4) false false (-1) [] [] false)
      [AKey "2" KPress; AFrame no_ev; AFire 0 0]
  = Some (mkState (mkSequence [2; 0] 2 4) false true (-1) [CbClose] [1] false).
Proof. vm_compute. reflexivity. Qed.

(** ** Witnesses *)

Lemma reachable_2 : reachable (mkSequence [2] 0 4).
Proof.
  refine (reach_reset sequence0 true 2 _ reach_init _ eq_refl).
  vm_compute. right. right. left. reflexivity.
Defined.

Lemma Next_sentinel_iff_witness :
  exists v s', Next (mkSequence [2] 0 4) = Some (v, s') /\
    (v = -1 <-> lindex (mkSequence [2] 0 4) = Len (mkSequence [2] 0 4)) /\
    (v = -1 <-> HasNext (mkSequence [2] 0 4) = false) /\
    (v = -1 -> s' = mkSequence [2] 0 4) /\
    (HasNext (mkSequence [2] 0 4) = true ->
       nth_error [2] (Z.to_nat 0) = Some v /\ 0 <= v < 4 /\
       s' = mkSequence [2] (0 + 1) 4).
Proof. exact (Next_sentinel_iff (mkSequence [2] 0 4) reachable_2). Defined.

Lemma mismatch_reports_witness :
  exists st', frame no_ev (mkState (mkSequence [2; 0] 1 4) false false 1 [] [] false)
              = Some st' /\
    terminating st' = true /\ seq st' = mkSequence [2; 0] 2 4 /\
    timers st' = [] ++ [CbFail] /\
    Len (mkSequence [2; 0] 2 4) = Len (mkSequence [2; 0] 1 4) /\
    exists st'', fire (List.length (@nil Callback)) 0 st' = Some st'' /\
      reported st'' = [] ++ [Len (mkSequence [2; 0] 1 4) - 1].
Proof.
  apply (mismatch_reports no_ev (mkState (mkSequence [2; 0] 1 4) false false 1 [] [] false)
           1 0 0 (mkSequence [2; 0] 2 4));
    try reflexivity; try lia.
Defined.

Lemma no_selection_no_judge_witness :
  let st := mkState (mkSequence [2] 0 4) false false (-1) [] [] false in
  (forall ev, selected st = -1 -> no_press ev -> frame ev st = Some st) /\
  (forall ev1 ev2 st1, frame ev1 st = Some st1 -> no_press ev2 ->
     selected st1 = -1 /\ simonPlay st1 = false /\ frame ev2 st1 = Some st1).
Proof. intros st. apply no_selection_no_judge. reflexivity. Defined.

Lemma ops_preserve_wf_witness :
  let s := mkSequence [2; 0] 1 4 in
  (forall add r q, Reset add r s = Some q -> wf q /\ Len s <= Len q) /\
  (exists v q, Next s = Some (v, q) /\ wf q /\ Len q = Len s).
Proof.
  intros s. apply ops_preserve_wf. unfold wf, Len. cbn. lia.
Defined.

Lemma keyboard_precedence_witness :
  let st := mkState (mkSequence [2] 0 4) false false 2 [] [] false in
  grid false (visible (fun _ => [PtPress]) st) (selected st)
    = (selected st, selected st) /\
  frame (fun _ => [PtPress]) st = frame no_ev st.
Proof.
  intros st. apply keyboard_precedence; [reflexivity|cbn; lia].
Defined.

Lemma Next_exhausted_noop_witness :
  Next (mkSequence [2] 1 4) = Some (-1, mkSequence [2] 1 4) /\
  (forall n, next_n n (mkSequence [2] 1 4) = Some (repeat (-1) n, mkSequence [2] 1 4)) /\
  Forall (fun x => 0 <= x < 4 /\ x <> -1) [2].
Proof.
  apply (Next_exhausted_noop (mkSequence [2] 1 4)).
  - apply (reach_next (mkSequence [2] 0 4) 2); [exact reachable_2|reflexivity].
  - reflexivity.
Defined.

(** * Further properties of main.go *)

(** ** Colours *)

Lemma half_bounds (x : Z) :
  0 <= x < 256 -> 0 <= x / 2 <= x /\ x / 2 < 128.
Proof.
  intros Hx. pose proof (Z.div_mod x 2 ltac:(lia)) as E.
  pose proof (Z.mod_pos_bound x 2 ltac:(lia)) as M. lia.
Qed.

(** [Darker] keeps a colour valid, keeps its alpha, never brightens a
    channel and leaves every colour channel below 128; so the colour of
    an inactive pad is a valid colour no brighter than the active one. *)
Theorem Darker_spec (c : NRGBA) (Hc : color_ok c) :
  color_ok (Darker c) /\ A (Darker c) = A c /\
  R (Darker c) <= R c /\ G (Darker c) <= G c /\ B (Darker c) <= B c /\
  R (Darker c) < 128 /\ G (Darker c) < 128 /\ B (Darker c) < 128 /\
  (forall active, color_ok (pad_color active c)).
Proof.
  destruct c as [r g b a]. unfold color_ok, byte_ok in *. cbn in *.
  destruct Hc as (Hr & Hg & Hb & Ha).
  pose proof (half_bounds r Hr). pose proof (half_bounds g Hg).
  pose proof (half_bounds b Hb).
  assert (Hp : forall active, color_ok (pad_color active (mkNRGBA r g b a))).
  { intros []; unfold color_ok, byte_ok, pad_color, Darker; cbn [R G B A];
      repeat split; lia. }
  unfold color_ok, byte_ok in Hp.
  repeat split; try lia; apply Hp.
Qed.

(** ** Pointer and key input *)

Lemma scan_events_find (i u : Z) (evs : list PType) :
  scan_events i evs u =
  match find (fun e => match e with PtOther => false | _ => true end) (rev evs) with
  | Some PtPress => i
  | Some PtRelease => -1
  | _ => u
  end.
Proof.
  unfold scan_events. induction evs as [|e evs IH] using rev_ind; [reflexivity|].
  rewrite fold_left_app, rev_app_distr. cbn [fold_left rev app find].
  rewrite IH. destruct e; reflexivity.
Qed.

Lemma scan_events_pressed (i : Z) (evs : list PType) :
  scan_events i evs (-1) = if pressed evs then i else -1.
Proof.
  rewrite scan_events_find. unfold pressed.
  destruct (find _ (rev evs)) as [[]|]; reflexivity.
Qed.

Lemma grid_fold_pointer (events : nat -> list PType) (idx : list nat) :
  fold_left (fun us i => pad_input false (events i) (Z.of_nat i) us) idx (-1, -1)
  = match find (fun i => pressed (events i)) idx with
    | Some i => (Z.of_nat i, Z.of_nat i)
    | None => (-1, -1)
    end.
Proof.
  induction idx as [|i idx IH]; [reflexivity|].
  cbn [fold_left find]. unfold pad_input at 2. cbn [negb Z.geb Z.compare].
  rewrite scan_events_pressed.
  destruct (pressed (events i)).
  - apply grid_fold_keyboard. lia.
  - exact IH.
Qed.

(** Without a keyboard selection, the pointer scan of a frame selects the
    lowest-numbered pad whose pointer events end in a press: a press
    followed by a release on the same pad cancels, and with no such pad
    nothing is selected. *)
Theorem grid_pointer_first_pressed (events : nat -> list PType) :
  grid false events (-1) = (first_pressed events, first_pressed events).
Proof.
  unfold grid, first_pressed. rewrite grid_fold_pointer.
  destruct (find _ _); reflexivity.
Qed.

(** A frame that starts during playback or after a mismatch runs with
    [gtx.Disabled()]: its pointer events have no effect. *)
Theorem frame_disabled_ignores_pointer (ev : nat -> list PType) (st : State)
    (Hdis : simonPlay st = true \/ terminating st = true) :
  frame ev st = frame no_ev st.
Proof.
  assert (H : simonPlay st || terminating st = true)
    by (destruct Hdis as [H|H]; rewrite H; [reflexivity|apply orb_true_r]).
  unfold frame, visible. rewrite H. reflexivity.
Qed.



(** ** Invariants of the loop *)

Lemma Next_ok (s : Sequence) :
  seq_ok s ->
  exists v q, Next s = Some (v, q) /\ seq_ok q /\ (v = -1 \/ 0 <= v < 4).
Proof.
  intros (Hm & Hwf & Hall).
  destruct (Next_cases s Hwf) as [(E & HN)|(Hlt & v & Hv & HN)].
  - exists (-1), s. split; [exact HN|]. split; [unfold seq_ok; auto|left; reflexivity].
  - exists v, (mkSequence (lst s) (lindex s + 1) (maxval s)). split; [exact HN|].
    split.
    + unfold seq_ok, wf, Len in *; cbn. repeat split; auto; lia.
    + right. rewrite Forall_forall in Hall. apply Hall. eapply nth_error_In; eauto.
Qed.

Lemma Reset_ok (s : Sequence) (add : bool) (r : Z) :
  seq_ok s -> 0 <= r < 4 -> exists q, Reset add r s = Some q /\ seq_ok q.
Proof.
  intros (Hm & Hwf & Hall) Hr. unfold Reset. cbn [lst maxval]. rewrite Hm.
  destruct add; cbn [Intn_panics Z.leb Z.compare].
  - eexists. split; [reflexivity|].
    unfold seq_ok, wf, Len; cbn. rewrite length_app. repeat split; try lia.
    apply Forall_app. split; [exact Hall|constructor; [lia|constructor]].
  - eexists. split; [reflexivity|].
    unfold seq_ok, wf, Len; cbn. repeat split; auto; lia.
Qed.

Lemma simon_step_ok (st : State) :
  inv st -> exists st1, simon_step st = Some st1 /\ inv st1.
Proof.
  intros (Hq & Hs). unfold simon_step.
  destruct (simonPlay st); [|exists st; split; [reflexivity|split; assumption]].
  destruct (Next_ok _ Hq) as (v & q & HN & Hq' & Hv). rewrite HN. cbn [obind].
  destruct (v >=? 0) eqn:Ev.
  - eexists. split; [reflexivity|]. split; [exact Hq'|].
    cbn. apply Z.geb_le in Ev. lia.
  - destruct (Reset_ok q false 0 Hq' ltac:(lia)) as (q' & HR & Hq'').
    rewrite HR. cbn [obind]. eexists. split; [reflexivity|].
    split; [exact Hq''|exact Hs].
Qed.

Lemma judge_ok (u : Z) (st : State) :
  seq_ok (seq st) -> exists st', judge u st = Some st' /\ seq_ok (seq st').
Proof.
  intros Hq. unfold judge.
  destruct (Next_ok _ Hq) as (v & q & HN & Hq' & _). rewrite HN. cbn [obind].
  destruct ((v >=? 0) && negb (v =? u));
    match goal with |- context [if ?b then _ else _] => destruct b end;
    eexists; split; try reflexivity; exact Hq'.
Qed.

Lemma frame_ok (ev : nat -> list PType) (st : State) :
  inv st -> exists st', frame ev st = Some st' /\ inv st'.
Proof.
  intros Hi. unfold frame.
  destruct (simon_step_ok st Hi) as (st1 & E1 & (Hq1 & _)). rewrite E1. cbn [obind].
  destruct (grid (simonPlay st1) (visible ev st) (selected st1)) as [u sel].
  destruct (negb (simonPlay (set_selected sel st1)) && (u >=? 0)).
  - destruct (judge_ok u (set_selected sel st1) Hq1) as (st3 & E3 & Hq3).
    rewrite E3. cbn [obind]. eexists. split; [reflexivity|].
    split; [exact Hq3|cbn; lia].
  - cbn [obind]. eexists. split; [reflexivity|]. split; [exact Hq1|cbn; lia].
Qed.

Lemma key_event_ok (name : string) (ks : KeyState) (st : State) :
  inv st -> inv (key_event name ks st).
Proof.
  intros (Hq & Hs). unfold key_event.
  destruct ks; [|split; [exact Hq|cbn; lia]].
  destruct (existsb (String.eqb name) ["1"; "2"; "3"; "4"]%string) eqn:Ed.
  - destruct (negb (simonPlay st)); [|split; assumption].
    split; [exact Hq|]. cbn [selected set_selected].
    apply existsb_exists in Ed as (x & Hx & E). apply String.eqb_eq in E. subst x.
    cbn in Hx. destruct Hx as [<-|[<-|[<-|[<-|[]]]]]; cbn; lia.
  - destruct (existsb (String.eqb name) ["X"; "Q"]%string);
      split; assumption.
Qed.

Lemma fire_ok (n : nat) (r : Z) (st : State) :
  inv st -> (n < List.length (timers st))%nat -> 0 <= r < 4 ->
  exists st', fire n r st = Some st' /\ inv st'.
Proof.
  intros (Hq & Hs) Hn Hr. unfold fire.
  destruct (nth_error (timers st) n) as [cb|] eqn:E;
    [|apply nth_error_None in E; lia].
  cbn [obind]. destruct cb; cbn [run_callback].
  - eexists. split; [reflexivity|]. split; assumption.
  - eexists. split; [reflexivity|]. split; assumption.
  - eexists. split; [reflexivity|]. split; assumption.
  - destruct (Reset_ok (seq st) true r Hq Hr) as (q & HR & Hq').
    cbn [seq set_timers]. rewrite HR. cbn [obind].
    eexists. split; [reflexivity|]. split; [exact Hq'|exact Hs].
Qed.

(** The loop never panics: started with a possible [rand.Intn(4)] draw it
    satisfies [inv] (the cursor within bounds, symbols in [[0, 4)],
    [selected] in [[-1, 4)]), and every frame, key event and firing of a
    pending timer keeps [inv] without a runtime panic (in particular
    [s.list[s.lindex]] in [Next] is always in range). *)
Theorem loop_never_panics :
  (forall r, 0 <= r < 4 -> exists st, loop_start r = Some st /\ inv st) /\
  (forall st a, inv st -> valid_action st a ->
     exists st', step st a = Some st' /\ inv st').
Proof.
  split.
  - intros r Hr. eexists. split; [reflexivity|].
    unfold inv, seq_ok, wf, Len; cbn. repeat split; try lia.
    constructor; [lia|constructor].
  - intros st a Hi Ha. destruct a as [ev|name ks|n r]; cbn [step].
    + apply frame_ok. exact Hi.
    + eexists. split; [reflexivity|]. apply key_event_ok. exact Hi.
    + destruct Ha as [Hn Hr]. apply fire_ok; assumption.
Qed.

Lemma count_reset_app (ts : list Callback) (cb : Callback) :
  count_reset (ts ++ [cb]) =
  (count_reset ts + match cb with CbReset => 1 | _ => 0 end)%nat.
Proof.
  unfold count_reset. rewrite filter_app, length_app. destruct cb; reflexivity.
Qed.

Lemma count_reset_remove_nth (n : nat) (ts : list Callback) :
  (count_reset (remove_nth n ts) <= count_reset ts)%nat.
Proof.
  unfold count_reset. revert n. induction ts as [|cb ts IH]; intros n.
  - destruct n; cbn; lia.
  - destruct n as [|n]; cbn [remove_nth filter].
    + destruct cb; cbn [List.length]; lia.
    + destruct cb; cbn [List.length]; specialize (IH n); lia.
Qed.

Lemma simon_step_term (st st1 : State) :
  simon_step st = Some st1 ->
  terminating st1 = terminating st /\ count_reset (timers st1) = count_reset (timers st).
Proof.
  unfold simon_step. destruct (simonPlay st); [|intros H; inversion H; auto].
  destruct (Next (seq st)) as [[v q]|]; cbn [obind]; [|discriminate].
  destruct (v >=? 0).
  - intros H; inversion H; subst.
    cbn [AfterFunc set_selected set_seq set_timers terminating timers].
    rewrite count_reset_app. split; [reflexivity|lia].
  - destruct (Reset false 0 q); cbn [obind]; [|discriminate].
    intros H; inversion H; subst. cbn [set_seq set_simonPlay terminating timers]. auto.
Qed.

Lemma judge_term (u : Z) (st st' : State) :
  terminating st = true -> judge u st = Some st' ->
  terminating st' = true /\ count_reset (timers st') = count_reset (timers st).
Proof.
  intros Ht. unfold judge.
  destruct (Next (seq st)) as [[v q]|]; cbn [obind]; [|discriminate].
  destruct ((v >=? 0) && negb (v =? u)).
  - cbn [AfterFunc set_terminating set_seq set_timers terminating timers negb andb].
    intros H; inversion H; subst.
    unfold AfterFunc, set_terminating, set_seq, set_timers; cbn [terminating timers].
    rewrite count_reset_app. split; [reflexivity|lia].
  - cbn [set_seq terminating timers]. rewrite Ht. cbn [negb andb].
    intros H; inversion H; subst. cbn [terminating timers]. auto.
Qed.

(** After a mismatch the game stays in [Terminating]: no frame, key event
    or timer resets [terminating], and none of them adds a pending
    [resetTime] callback, so no new round is scheduled from then on. *)
Theorem terminating_absorbing (st st' : State) (a : Action)
    (Ht : terminating st = true) (Hs : step st a = Some st') :
  terminating st' = true /\ (count_reset (timers st') <= count_reset (timers st))%nat.
Proof.
  destruct a as [ev|name ks|n r]; cbn [step] in Hs.
  - unfold frame in Hs.
    destruct (simon_step st) as [st1|] eqn:E1; cbn [obind] in Hs; [|discriminate].
    apply simon_step_term in E1 as (T1 & C1).
    destruct (grid (simonPlay st1) (visible ev st) (selected st1)) as [u sel].
    destruct (negb (simonPlay (set_selected sel st1)) && (u >=? 0)).
    + destruct (judge u (set_selected sel st1)) as [st3|] eqn:E3;
        cbn [obind] in Hs; [|discriminate].
      apply judge_term in E3 as (T3 & C3); [|cbn; rewrite T1; exact Ht].
      inversion Hs; subst. cbn [set_selected terminating timers].
      cbn [set_selected timers] in C3. split; [exact T3|lia].
    + cbn [obind] in Hs. inversion Hs; subst. cbn [set_selected terminating timers].
      split; [rewrite T1; exact Ht|lia].
  - inversion Hs; subst. unfold key_event.
    destruct ks; [|cbn; auto].
    destruct (existsb (String.eqb name) ["1"; "2"; "3"; "4"]%string);
      [destruct (negb (simonPlay st))|destruct (existsb (String.eqb name) ["X"; "Q"]%string)];
      cbn; auto.
  - unfold fire in Hs.
    destruct (nth_error (timers st) n) as [cb|]; cbn [obind] in Hs; [|discriminate].
    pose proof (count_reset_remove_nth n (timers st)) as Hc.
    destruct cb; cbn [run_callback] in Hs.
    + inversion Hs; subst. cbn [set_timers terminating timers]. auto.
    + inversion Hs; subst.
      unfold AfterFunc, set_reported, set_timers; cbn [terminating timers].
      rewrite count_reset_app. split; [exact Ht|lia].
    + inversion Hs; subst. cbn [set_closed set_timers terminating timers]. auto.
    + destruct (Reset true r (seq (set_timers (remove_nth n (timers st)) st)));
        cbn [obind] in Hs; [|discriminate].
      inversion Hs; subst. cbn [set_seq set_simonPlay set_timers terminating timers].
      auto.
Qed.

(** ** Rounds *)

Lemma run_app (st : State) (a b : list Action) :
  run st (a ++ b) = (st' <- run st a ;; run st' b).
Proof.
  revert st. induction a as [|x a IH]; intros st; [reflexivity|].
  cbn [app run]. destruct (step st x); cbn [obind]; [apply IH|reflexivity].
Qed.

Lemma Next_at (pre suf : list Z) (a m : Z) :
  Next (mkSequence (pre ++ a :: suf) (Z.of_nat (List.length pre)) m)
  = Some (a, mkSequence ((pre ++ [a]) ++ suf) (Z.of_nat (List.length (pre ++ [a]))) m).
Proof.
  assert (Hwf : wf (mkSequence (pre ++ a :: suf) (Z.of_nat (List.length pre)) m)).
  { unfold wf, Len; cbn. rewrite length_app; cbn. lia. }
  destruct (Next_cases _ Hwf) as [(E & _)|(_ & v & Hv & HN)].
  - unfold Len in E; cbn in E. rewrite length_app in E; cbn in E. lia.
  - rewrite HN. cbn in Hv. rewrite Nat2Z.id in Hv.
    rewrite nth_error_app2, Nat.sub_diag in Hv by lia. cbn in Hv.
    inversion Hv; subst v.
    rewrite <- app_assoc, length_app. cbn. do 3 f_equal. lia.
Qed.

Lemma Next_at_end (l : list Z) (m : Z) :
  Next (mkSequence l (Z.of_nat (List.length l)) m)
  = Some (-1, mkSequence l (Z.of_nat (List.length l)) m).
Proof. unfold Next, Len. cbn [lindex lst]. rewrite Z.eqb_refl. reflexivity. Qed.

Lemma grid_fold_playing (events : nat -> list PType) (idx : list nat) (us : Z * Z) :
  fold_left (fun us i => pad_input true (events i) (Z.of_nat i) us) idx us = us.
Proof.
  revert us. induction idx as [|i idx IH]; intros [u s]; [reflexivity|].
  cbn [fold_left]. apply IH.
Qed.

Lemma frame_play_symbol (pre suf : list Z) (a : Z) (t : bool) (rep : list Z) (cl : bool) :
  0 <= a ->
  frame no_ev (mkState (mkSequence (pre ++ a :: suf) (Z.of_nat (List.length pre)) 4)
                 true t (-1) [] rep cl)
  = Some (mkState (mkSequence ((pre ++ [a]) ++ suf) (Z.of_nat (List.length (pre ++ [a]))) 4)
            true t (-1) [CbInvalidate] rep cl).
Proof.
  intros Ha. unfold frame, simon_step. cbn [simonPlay seq].
  rewrite Next_at. cbn [obind].
  replace (a >=? 0) with true by (symmetry; apply Z.geb_le; exact Ha).
  cbn [obind AfterFunc set_selected set_seq set_timers simonPlay selected timers].
  unfold grid. rewrite grid_fold_playing. reflexivity.
Qed.

Lemma frame_play_end (l : list Z) (t : bool) (rep : list Z) (cl : bool) :
  frame no_ev (mkState (mkSequence l (Z.of_nat (List.length l)) 4) true t (-1) [] rep cl)
  = Some (mkState (mkSequence l 0 4) false t (-1) [] rep cl).
Proof.
  unfold frame, simon_step. cbn [simonPlay seq].
  rewrite Next_at_end.
  cbn [obind Z.geb Z.compare Reset set_seq set_simonPlay simonPlay selected
       lst maxval lindex].
  rewrite grid_no_press by (intros i; unfold visible; cbn; intros []).
  reflexivity.
Qed.

Lemma playback_from (pre suf : list Z) (t : bool) (rep : list Z) (cl : bool) :
  Forall (fun x => 0 <= x) suf ->
  run (mkState (mkSequence (pre ++ suf) (Z.of_nat (List.length pre)) 4) true t (-1) [] rep cl)
      (playback_acts (List.length suf))
  = Some (mkState (mkSequence (pre ++ suf) 0 4) false t (-1) [] rep cl).
Proof.
  revert pre. induction suf as [|a suf IH]; intros pre Hs.
  - rewrite app_nil_r. unfold playback_acts. cbn [List.length repeat List.concat app run step].
    rewrite frame_play_end. reflexivity.
  - inversion Hs as [|? ? Ha Hs']; subst.
    unfold playback_acts. cbn [List.length repeat List.concat app run step].
    rewrite frame_play_symbol by exact Ha. cbn [obind run step].
    unfold fire. cbn [timers nth_error obind run_callback remove_nth set_timers].
    fold (playback_acts (List.length suf)).
    replace (pre ++ a :: suf) with ((pre ++ [a]) ++ suf) by (rewrite <- app_assoc; reflexivity).
    apply IH. exact Hs'.
Qed.

Lemma key_press_digit (k : Z) (st : State) :
  0 <= k < 4 -> simonPlay st = false ->
  key_event (key_name k) KPress st = set_selected k st.
Proof.
  intros Hk Hp. assert (Hc : k = 0 \/ k = 1 \/ k = 2 \/ k = 3) by lia.
  destruct Hc as [ -> | [ -> | [ -> | -> ]]]; cbn; rewrite Hp; reflexivity.
Qed.

Lemma frame_idle (ev : nat -> list PType) (st : State) :
  simonPlay st = false -> selected st = -1 -> no_press ev -> frame ev st = Some st.
Proof.
  intros Hp Hs Hn. unfold frame, simon_step. rewrite Hp. cbn [obind].
  rewrite Hp, Hs, grid_no_press by (apply visible_no_press; exact Hn).
  cbn. destruct st; cbn in *; subst; reflexivity.
Qed.

Lemma no_press_no_ev : no_press no_ev.
Proof. intros i []. Qed.

Lemma frame_key_match (pre suf : list Z) (a : Z) (ts : list Callback) (rep : list Z) (cl : bool) :
  0 <= a ->
  frame no_ev (mkState (mkSequence (pre ++ a :: suf) (Z.of_nat (List.length pre)) 4)
                 false false a ts rep cl)
  = Some (mkState (mkSequence ((pre ++ [a]) ++ suf) (Z.of_nat (List.length (pre ++ [a]))) 4)
            false false (-1) (ts ++ match suf with [] => [CbReset] | _ => [] end) rep cl).
Proof.
  intros Ha. unfold frame, simon_step. cbn [simonPlay obind selected].
  rewrite grid_keyboard by exact Ha.
  cbn [obind set_selected simonPlay negb andb].
  replace (a >=? 0) with true by (symmetry; apply Z.geb_le; exact Ha).
  unfold judge. cbn [seq set_selected]. rewrite Next_at. cbn [obind].
  rewrite Z.eqb_refl, andb_false_r.
  unfold HasNext, Len, AfterFunc, set_seq, set_selected, set_timers.
  cbn [lindex lst seq terminating timers negb andb selected simonPlay reported closed obind].
  destruct suf as [|b suf'].
  - rewrite app_nil_r, Z.ltb_irrefl. reflexivity.
  - replace (_ <? _) with true
      by (symmetry; apply Z.ltb_lt; rewrite !length_app; cbn; lia).
    rewrite app_nil_r. reflexivity.
Qed.

Lemma reproduce_from (pre suf : list Z) (ts : list Callback) (rep : list Z) (cl : bool) :
  Forall (fun x => 0 <= x < 4) suf ->
  run (mkState (mkSequence (pre ++ suf) (Z.of_nat (List.length pre)) 4) false false (-1) ts rep cl)
      (flat_map press_key suf)
  = Some (mkState (mkSequence (pre ++ suf) (Z.of_nat (List.length (pre ++ suf))) 4)
            false false (-1) (ts ++ match suf with [] => [] | _ => [CbReset] end) rep cl).
Proof.
  revert pre ts. induction suf as [|a suf IH]; intros pre ts Hs.
  - rewrite !app_nil_r. reflexivity.
  - inversion Hs as [|? ? Ha Hs']; subst.
    cbn [flat_map press_key app run step].
    rewrite key_press_digit by (auto; reflexivity). cbn [obind].
    unfold set_selected; cbn [seq simonPlay terminating timers reported closed].
    rewrite frame_key_match by lia. cbn [obind run step key_event].
    unfold set_selected; cbn [seq simonPlay terminating timers reported closed].
    rewrite frame_idle by (try reflexivity; exact no_press_no_ev). cbn [obind].
    replace (pre ++ a :: suf) with ((pre ++ [a]) ++ suf)
      by (rewrite <- app_assoc; reflexivity).
    rewrite IH by exact Hs'.
    destruct suf; cbn [app]; rewrite ?app_nil_r; reflexivity.
Qed.


(** A correct reproduction: in the player's turn with the cursor at 0,
    pressing and releasing the keys of the whole sequence, in order,
    matches every symbol, never enters [Terminating], leaves the cursor
    at the end and schedules exactly one [resetTime] callback. *)
Theorem correct_reproduction (l : list Z) (ts : list Callback) (rep : list Z) (cl : bool)
    (Hl : Forall (fun x => 0 <= x < 4) l) (Hne : l <> []) :
  run (mkState (mkSequence l 0 4) false false (-1) ts rep cl) (flat_map press_key l)
  = Some (mkState (mkSequence l (Len (mkSequence l 0 4)) 4)
            false false (-1) (ts ++ [CbReset]) rep cl).
Proof.
  pose proof (reproduce_from [] l ts rep cl Hl) as H. cbn [app List.length Z.of_nat] in H.
  rewrite H. destruct l as [|x l]; [contradiction|]. reflexivity.
Qed.

(** One round without extra input: the machine plays the sequence, the
    player reproduces it, and the single [resetTime] callback fires; the
    next round starts with exactly one more symbol (the [rand.Intn] draw
    [r]), the cursor at 0 and no timer pending. *)
Theorem round_grows_by_one (l : list Z) (r : Z) (rep : list Z) (cl : bool)
    (Hl : Forall (fun x => 0 <= x < 4) l) (Hne : l <> []) :
  run (mkState (mkSequence l 0 4) true false (-1) [] rep cl)
      (playback_acts (List.length l) ++ flat_map press_key l ++ [AFire 0 r])
  = Some (mkState (mkSequence (l ++ [r]) 0 4) true false (-1) [] rep cl).
Proof.
  rewrite run_app.
  pose proof (playback_from [] l false rep cl) as P. cbn [app List.length Z.of_nat] in P.
  rewrite P by (eapply Forall_impl; [|exact Hl]; cbn; intros x Hx; lia).
  cbn [obind]. rewrite run_app.
  pose proof (reproduce_from [] l [] rep cl Hl) as H. cbn [app List.length Z.of_nat] in H.
  rewrite H. cbn [obind].
  destruct l as [|x l]; [contradiction|]. reflexivity.
Qed.

(** After a mismatch the loop keeps judging key presses (only pointer
    input is disabled): a further wrong key advances the cursor and
    schedules a second failure callback, so the failure is reported again. *)
Theorem judging_continues_after_mismatch (st : State) (k simon : Z) (q : Sequence)
    (Hplay : simonPlay st = false) (Hterm : terminating st = true) (Hk : 0 <= k < 4)
    (HN : Next (seq st) = Some (simon, q)) (Hs : 0 <= simon) (Hne : simon <> k) :
  exists st1 st2, step st (AKey (key_name k) KPress) = Some st1 /\
    frame no_ev st1 = Some st2 /\
    terminating st2 = true /\ seq st2 = q /\ timers st2 = timers st ++ [CbFail].
Proof.
  exists (set_selected k st). eexists. split.
  { cbn [step]. rewrite key_press_digit by assumption. reflexivity. }
  unfold frame, simon_step. cbn [set_selected simonPlay]. rewrite Hplay.
  cbn [obind selected simonPlay set_selected].
  rewrite Hplay, grid_keyboard by lia.
  cbn [obind set_selected simonPlay negb andb].
  replace (k >=? 0) with true by (symmetry; apply Z.geb_le; lia).
  unfold judge. cbn [seq set_selected]. rewrite HN. cbn [obind].
  replace ((simon >=? 0) && negb (simon =? k)) with true
    by (symmetry; apply andb_true_intro; split;
        [apply Z.geb_le; lia|apply negb_true_iff, Z.eqb_neq; exact Hne]).
  cbn [AfterFunc set_terminating set_seq set_timers terminating negb andb obind].
  split; [reflexivity|]. cbn. auto.
Qed.

(** ** Witnesses of the further properties *)

Lemma Darker_spec_witness :
  let c := mkNRGBA 0 200 0 255 in
  color_ok (Darker c) /\ A (Darker c) = A c /\
  R (Darker c) <= R c /\ G (Darker c) <= G c /\ B (Darker c) <= B c /\
  R (Darker c) < 128 /\ G (Darker c) < 128 /\ B (Darker c) < 128 /\
  (forall active, color_ok (pad_color active c)).
Proof.
  intros c. apply Darker_spec. unfold color_ok, byte_ok. cbn. lia.
Defined.

Lemma frame_disabled_ignores_pointer_witness :
  frame (fun _ => [PtPress])
        (mkState (mkSequence [2; 0] 2 4) false true (-1) [CbFail] [] false)
  = frame no_ev (mkState (mkSequence [2; 0] 2 4) false true (-1) [CbFail] [] false).
Proof. apply frame_disabled_ignores_pointer. right. reflexivity. Defined.


Lemma terminating_absorbing_witness :
  terminating (mkState (mkSequence [2; 0] 2 4) false true (-1) [CbClose] [1] false) = true /\
  Nat.le (count_reset (timers (mkState (mkSequence [2; 0] 2 4) false true (-1) [CbClose] [1] false)))
         (count_reset (timers (mkState (mkSequence [2; 0] 2 4) false true (-1) [CbFail] [] false))).
Proof.
  apply (terminating_absorbing
           (mkState (mkSequence [2; 0] 2 4) false true (-1) [CbFail] [] false)
           _ (AFire 0 0)); reflexivity.
Defined.

Lemma loop_never_panics_witness :
  exists st', step (mkState (mkSequence [2] 0 4) false false (-1) [CbReset] [] false)
                   (AFire 0 3) = Some st' /\ inv st'.
Proof.
  apply (proj2 loop_never_panics).
  - unfold inv, seq_ok, wf, Len. cbn. repeat split; try lia. constructor; [lia|constructor].
  - cbn. split; lia.
Defined.


Lemma correct_reproduction_witness :
  run (mkState (mkSequence [2; 0] 0 4) false false (-1) [] [] false) (flat_map press_key [2; 0])
  = Some (mkState (mkSequence [2; 0] (Len (mkSequence [2; 0] 0 4)) 4)
            false false (-1) ([] ++ [CbReset]) [] false).
Proof.
  apply correct_reproduction; [repeat constructor; lia|discriminate].
Defined.

Lemma round_grows_by_one_witness :
  run (mkState (mkSequence [2; 0] 0 4) true false (-1) [] [] false)
      (playback_acts 2 ++ flat_map press_key [2; 0] ++ [AFire 0 3])
  = Some (mkState (mkSequence ([2; 0] ++ [3]) 0 4) true false (-1) [] [] false).
Proof.
  apply (round_grows_by_one [2; 0] 3 [] false); [repeat constructor; lia|discriminate].
Defined.

Lemma judging_continues_after_mismatch_witness :
  exists st1 st2,
    step (mkState (mkSequence [2; 0] 1 4) false true (-1) [CbFail] [] false)
         (AKey (key_name 3) KPress) = Some st1 /\
    frame no_ev st1 = Some st2 /\
    terminating st2 = true /\ seq st2 = mkSequence [2; 0] 2 4 /\
    timers st2 = [CbFail] ++ [CbFail].
Proof.
  apply (judging_continues_after_mismatch
           (mkState (mkSequence [2; 0] 1 4) false true (-1) [CbFail] [] false) 3 0);
    try reflexivity; lia.
Defined.
